(** * BaseComponent: property diffing, lifecycle and route parameters

    A shallow embedding of [src/src/base_component.js].  JavaScript values
    are modelled with their strict equality [===]; plain objects (the
    property bag, route parameters, stashed navigation parameters) are
    association lists in property-insertion order; the component instance
    is a record threaded through its methods, with the externally visible
    effects (renders into the shadow root, Bloc subscription and closing)
    appended to a log. *)

From Stdlib Require Import String List ZArith Bool Lia Sorted.
Import ListNotations.

(** ** JavaScript values *)

(** Numbers: IEEE doubles are represented by their integer values, the two
    infinities and NaN; [+0] and [-0] are not distinguished, which [===]
    does not do either. *)
Inductive jsnum : Type :=
| NaN
| Fin (z : Z)
| Inf (positive : bool).

(** Object and function values are references, compared by identity;
    the built-in objects of the realm that the code can reach are named by
    their path ([Object], [Object.prototype.toString], ...). *)
Inductive jsval : Type :=
| JUndef
| JNull
| JBool (b : bool)
| JNum (n : jsnum)
| JStr (s : string)
| JRef (r : N)
| JBuiltin (name : string).

Definition num_strict_eq (a b : jsnum) : bool :=
  match a, b with
  | Fin x, Fin y => Z.eqb x y
  | Inf p, Inf q => Bool.eqb p q
  | _, _ => false
  end.

(** [a === b] *)
Definition strict_eq (a b : jsval) : bool :=
  match a, b with
  | JUndef, JUndef => true
  | JNull, JNull => true
  | JBool x, JBool y => Bool.eqb x y
  | JNum x, JNum y => num_strict_eq x y
  | JStr x, JStr y => String.eqb x y
  | JRef x, JRef y => N.eqb x y
  | JBuiltin x, JBuiltin y => String.eqb x y
  | _, _ => false
  end.

(** [a ?? b] *)
Definition nullish (a b : jsval) : jsval :=
  match a with
  | JUndef | JNull => b
  | _ => a
  end.

(** ** Plain objects

    Own properties in insertion order.  (Object.keys lists integer-like keys
    first; no result below depends on the order of keys.)  An object
    literal inherits the members of Object.prototype: [get_member] reads a
    property through that prototype. *)

Definition obj (A : Type) := list (string * A).
Definition bag := obj jsval.

Definition keys {A} (o : obj A) : list string := map fst o.

(** [o.hasOwnProperty(k)] *)
Fixpoint has_own {A} (o : obj A) (k : string) : bool :=
  match o with
  | [] => false
  | (k0, _) :: o' => String.eqb k0 k || has_own o' k
  end.

(** The own property [k] of [o], if any. *)
Fixpoint get_own {A} (o : obj A) (k : string) : option A :=
  match o with
  | [] => None
  | (k0, v0) :: o' => if String.eqb k0 k then Some v0 else get_own o' k
  end.

(** [o[k]]: undefined for a missing property. *)
Definition get_prop (o : bag) (k : string) : jsval :=
  match get_own o k with Some v => v | None => JUndef end.

(** The members of [Object.prototype], which an object literal inherits:
    [constructor] is [Object], the [__proto__] accessor answers
    [Object.prototype] itself, the others are built-in methods. *)
Definition object_prototype_member (k : string) : option jsval :=
  if String.eqb k "constructor" then Some (JBuiltin "Object")
  else if String.eqb k "__proto__" then Some (JBuiltin "Object.prototype")
  else if existsb (String.eqb k)
            ["__defineGetter__"; "__defineSetter__"; "__lookupGetter__"; "__lookupSetter__";
             "hasOwnProperty"; "isPrototypeOf"; "propertyIsEnumerable"; "toLocaleString";
             "toString"; "valueOf"]%string
  then Some (JBuiltin ("Object.prototype." ++ k))
  else None.

(** [o[k]] on an object literal [o]: an own property, else a member
    inherited from Object.prototype, else undefined. *)
Definition get_member (o : bag) (k : string) : jsval :=
  match get_own o k with
  | Some v => v
  | None => match object_prototype_member k with Some v => v | None => JUndef end
  end.

(** [o[k] = v]: overwrites in place, or appends a new property. *)
Fixpoint obj_set {A} (o : obj A) (k : string) (v : A) : obj A :=
  match o with
  | [] => [(k, v)]
  | (k0, v0) :: o' =>
      if String.eqb k0 k then (k0, v) :: o' else (k0, v0) :: obj_set o' k v
  end.

(** [delete o[k]] *)
Definition obj_delete {A} (o : obj A) (k : string) : obj A :=
  filter (fun kv => negb (String.eqb (fst kv) k)) o.

(** Copying the own properties of [src] into [acc], as a spread does. *)
Definition assign_into {A} (acc : obj A) (src : obj A) : obj A :=
  fold_left (fun acc kv => obj_set acc (fst kv) (snd kv)) src acc.

(** [{ ...a, ...b }] *)
Definition spread {A} (a b : obj A) : obj A := assign_into (assign_into [] a) b.

(** [Object.fromEntries(searchParams)]: values are strings, a repeated key
    keeps its first position and its last value. *)
Definition fromEntries (l : list (string * string)) : bag :=
  fold_left (fun acc kv => obj_set acc (fst kv) (JStr (snd kv))) l [].

(** ** [#shallowEquals]

<<
  #shallowEquals(obj1, obj2) {
    return Object.keys(obj1).length === Object.keys(obj2).length
      && Object.keys(obj1).every(key => obj2.hasOwnProperty(key) && obj1[key] === obj2[key]);
  }
>>
    [obj2.hasOwnProperty(key)] is the inherited method, an own-key test,
    as long as [obj2] has no own property named [hasOwnProperty]; with one,
    the code calls that property instead (a TypeError when it is not a
    function), which this definition does not model: every theorem whose
    conclusion depends on the answer of [shallowEquals] assumes no such
    property ([no_shadow] below). *)
Definition shallowEquals (obj1 obj2 : bag) : bool :=
  Nat.eqb (length (keys obj1)) (length (keys obj2))
  && forallb (fun key => has_own obj2 key && strict_eq (get_prop obj1 key) (get_prop obj2 key))
       (keys obj1).

(** ** The component instance *)

(** The part of the external Bloc the component reads: its current state. *)
Record bloc : Type := mkBloc { bloc_state : jsval }.

(** Externally visible effects of the component's methods. *)
Inductive effect : Type :=
| Render (data : bag)       (** [render(template, this.shadowRoot)], [data] being the
                                object passed to the [render()] hook *)
| BlocListen                (** [this.#bloc.listen(...)] *)
| Unsubscribe (s : nat)     (** [this.#subscription.unsubscribe()] *)
| BlocClose.                (** [this.#bloc.close()] *)

Record component : Type := mkComponent {
  props : bag;                   (** [#props] *)
  cbloc : option bloc;           (** [#bloc] *)
  subscription : option nat;     (** [#subscription] *)
  isConnected : bool;
  shadowRoot : bool;             (** whether [this.shadowRoot] is non-null *)
  log : list effect
}.

Definition with_props (c : component) (p : bag) : component :=
  mkComponent p (cbloc c) (subscription c) (isConnected c) (shadowRoot c) (log c).

Definition with_log (c : component) (l : list effect) : component :=
  mkComponent (props c) (cbloc c) (subscription c) (isConnected c) (shadowRoot c) l.

Definition with_subscription (c : component) (s : option nat) : component :=
  mkComponent (props c) (cbloc c) s (isConnected c) (shadowRoot c) (log c).

Definition with_connected (c : component) (b : bool) : component :=
  mkComponent (props c) (cbloc c) (subscription c) b (shadowRoot c) (log c).

(** [constructor(bloc)]: [#props = {}], [#bloc = bloc], and
    [this.attachShadow({ mode: 'open' })], after which [shadowRoot] is set. *)
Definition constructor (b : option bloc) : component :=
  mkComponent [] b None false true [].

(** [{ ...this.#props, state: this.#bloc?.state }] *)
Definition render_data (c : component) : bag :=
  obj_set (spread (props c) [])
    "state"%string (match cbloc c with Some b => bloc_state b | None => JUndef end).

(** [requestUpdate()]: the template is built from the [styles()] and
    [render(data)] hooks (pure overridable functions), and handed to the
    renderer only when the shadow root exists. *)
Definition requestUpdate (c : component) : component :=
  let data := render_data c in
  if shadowRoot c then with_log c (log c ++ [Render data]) else c.

(** [setProps(partialProps)] *)
Definition setProps (c : component) (partialProps : bag) : component :=
  let newProps := spread (props c) partialProps in
  if negb (shallowEquals (props c) newProps) then
    let c' := with_props c newProps in
    if isConnected c' then requestUpdate c' else c'
  else c.

(** [connectedCallback()]: the subscription handle returned by
    [listen] is numbered by the position of its [BlocListen] in the log. *)
Definition connectedCallback (c : component) : component :=
  let c1 :=
    match cbloc c with
    | Some _ => with_log (with_subscription c (Some (length (log c)))) (log c ++ [BlocListen])
    | None => with_subscription c None
    end in
  requestUpdate c1.

(** [disconnectedCallback()] *)
Definition disconnectedCallback (c : component) : component :=
  let c1 :=
    match subscription c with
    | Some s => with_log c (log c ++ [Unsubscribe s])
    | None => c
    end in
  match cbloc c1 with
  | Some _ => with_log c1 (log c1 ++ [BlocClose])
  | None => c1
  end.

(** Attaching to / detaching from the document: the DOM updates
    [isConnected] and then calls the lifecycle callback. *)
Definition mount (c : component) : component := connectedCallback (with_connected c true).
Definition unmount (c : component) : component := disconnectedCallback (with_connected c false).

(** A state emission of the Bloc, delivered to the [listen] callback:
    the [listen(data)] hook (no effect by default), then [requestUpdate()]. *)
Definition on_bloc_state (c : component) (s : jsval) : component :=
  requestUpdate (mkComponent (props c) (option_map (fun _ => mkBloc s) (cbloc c))
                   (subscription c) (isConnected c) (shadowRoot c) (log c)).

Fixpoint count_renders (l : list effect) : nat :=
  match l with
  | [] => 0
  | Render _ :: l' => S (count_renders l')
  | _ :: l' => count_renders l'
  end.

Fixpoint count_close (l : list effect) : nat :=
  match l with
  | [] => 0
  | BlocClose :: l' => S (count_close l')
  | _ :: l' => count_close l'
  end.

(** ** Navigation *)

(** The properties of [window] used as the navigation-parameter store:
    the stashed parameter objects, keyed by path and query string. *)
Definition store := obj bag.

(** The fields of the router's location read by [onBeforeEnter]. *)
Record location : Type := mkLocation {
  pathname : string;
  search : string;                          (** [""] or ["?..."] *)
  params : bag;                             (** path parameters *)
  searchParams : list (string * string)     (** the parsed query string *)
}.

(** [navigate(path, { params })]: returns the updated [window] and the
    path handed to [Router.go]. *)
Definition navigate (window : store) (path : string) (params : bag) : store * string :=
  let window' := if Nat.ltb 0 (length (keys params)) then obj_set window path params else window in
  (window', path).

(** [onBeforeEnter(location)]: returns the updated [window] and the
    assignments [this[key] = value] in the order they are performed.
    [window[passedParamsLocation]] is an own lookup: the key starts with the
    path's [/], and no property [window] inherits does.  The stashed value
    [passedParams?.[key]] is read through the prototype of the object
    literal that [navigate] stored. *)
Definition onBeforeEnter (window : store) (loc : location) : store * list (string * jsval) :=
  let passedParamsLocation := (pathname loc ++ search loc)%string in
  let passedParams := get_own window passedParamsLocation in
  let window' := obj_delete window passedParamsLocation in
  let combinedParams := spread (params loc) (fromEntries (searchParams loc)) in
  (window',
   map (fun kv =>
          (fst kv,
           nullish (match passedParams with Some p => get_member p (fst kv) | None => JUndef end)
                   (snd kv)))
       combinedParams).

(** [this[key] = value] on a component whose setters follow the documented
    convention [set key(value) { this.setProps({ key: value }); }]. *)
Definition assign_props (c : component) (assignments : list (string * jsval)) : component :=
  fold_left (fun c kv => setProps c [kv]) assignments c.

(** ** Operations on a component *)

Inductive op : Type :=
| OSetProps (P : bag)
| OMount
| OUnmount
| ORequestUpdate
| OBlocState (s : jsval)
| OAssign (assignments : list (string * jsval)).

Definition step (c : component) (o : op) : component :=
  match o with
  | OSetProps P => setProps c P
  | OMount => mount c
  | OUnmount => unmount c
  | ORequestUpdate => requestUpdate c
  | OBlocState s => on_bloc_state c s
  | OAssign a => assign_props c a
  end.

Definition run (c : component) (ops : list op) : component := fold_left step ops c.

Open Scope string_scope.
Open Scope list_scope.

(** ** Example application: the counter Bloc

    [CounterBloc.mapEventToState] from the counter example: the states it
    yields for one event, [this.state] being the current state.  Counter
    values are integers (exact as doubles below 2^53). *)

Inductive counter_state : Type :=
| CounterInitialized
| CounterUpdated (value : Z).

Definition counter_value (s : counter_state) : Z :=
  match s with CounterInitialized => 0 | CounterUpdated v => v end.

(** [CounterEventBase] is an instance of the abstract base class itself,
    matched by no case of the [switch]. *)
Inductive counter_event : Type :=
| CounterEventBase
| CounterIncrement
| CounterDecrement.

Definition counter_mapEventToState (state : counter_state) (event : counter_event)
  : list counter_state :=
  match event with
  | CounterIncrement => [CounterUpdated (counter_value state + 1)]
  | CounterDecrement =>
      if Z.ltb 0 (counter_value state) then [CounterUpdated (counter_value state - 1)] else []
  | CounterEventBase => []
  end.

(** ** Example application: the in-memory to-do service

    [MockTodoService]: a [Map] from ids to to-do objects and the next id.
    To-do objects are modelled by value. *)

(** [Map] keys are compared with SameValueZero. *)
Definition same_value_zero (a b : jsval) : bool :=
  match a, b with
  | JNum NaN, JNum NaN => true
  | _, _ => strict_eq a b
  end.

Definition jsmap := list (jsval * bag).

(** [m.has(k)] *)
Fixpoint map_has (m : jsmap) (k : jsval) : bool :=
  match m with
  | [] => false
  | (k0, _) :: m' => same_value_zero k0 k || map_has m' k
  end.

(** [m.get(k)] *)
Fixpoint map_get (m : jsmap) (k : jsval) : option bag :=
  match m with
  | [] => None
  | (k0, v0) :: m' => if same_value_zero k0 k then Some v0 else map_get m' k
  end.

(** [m.set(k, v)]: an existing key keeps its position. *)
Fixpoint map_set (m : jsmap) (k : jsval) (v : bag) : jsmap :=
  match m with
  | [] => [(k, v)]
  | (k0, v0) :: m' =>
      if same_value_zero k0 k then (k0, v) :: m' else (k0, v0) :: map_set m' k v
  end.

(** [m.delete(k)] *)
Definition map_delete (m : jsmap) (k : jsval) : jsmap :=
  filter (fun kv => negb (same_value_zero (fst kv) k)) m.

Record mock_service : Type := mkMock {
  todos : jsmap;       (** [#todos] *)
  nextId : Z           (** [#nextId] *)
}.

Definition mock_init : mock_service := mkMock [] 1.

(** [addTodo(todo)]: returns the service and [newTodo]. *)
Definition addTodo (s : mock_service) (todo : bag) : mock_service * bag :=
  let id := JNum (Fin (nextId s)) in
  let newTodo := spread [("id", id)] todo in
  (mkMock (map_set (todos s) id newTodo) (nextId s + 1), newTodo).

(** [updateTodo(todo)]: [None] stands for [null]. *)
Definition updateTodo (s : mock_service) (todo : bag) : mock_service * option bag :=
  if negb (map_has (todos s) (get_prop todo "id")) then (s, None)
  else (mkMock (map_set (todos s) (get_prop todo "id") todo) (nextId s), Some todo).

(** [removeTodo(todo)] *)
Definition removeTodo (s : mock_service) (todo : bag) : mock_service * bag :=
  (mkMock (map_delete (todos s) (get_prop todo "id")) (nextId s), todo).

(** [searchTodos()]: the values in insertion order. *)
Definition searchTodos (s : mock_service) : list bag := map snd (todos s).

Inductive service_op : Type :=
| SAdd (todo : bag)
| SUpdate (todo : bag)
| SRemove (todo : bag).

Definition service_step (s : mock_service) (o : service_op) : mock_service :=
  match o with
  | SAdd t => fst (addTodo s t)
  | SUpdate t => fst (updateTodo s t)
  | SRemove t => fst (removeTodo s t)
  end.

Definition run_service (s : mock_service) (ops : list service_op) : mock_service :=
  fold_left service_step ops s.

(** ** Example application: the to-do Blocs *)

Inductive todo_state : Type :=
| TodoEdited (todo : bag)
| TodoSaving (todo : bag)
| TodoSaved (todo : bag)
| TodoNotSaved (todo : bag).

Inductive todo_event : Type :=
| AddTodo (todo : bag)
| UpdateTodo (todo : bag).

(** [TodoBloc.mapEventToState] over the in-memory service: the states it
    yields and the service afterwards.  [if (savedTodo)] tests an object
    (truthy) against [null]. *)
Definition todo_mapEventToState (s : mock_service) (event : todo_event)
  : list todo_state * mock_service :=
  match event with
  | AddTodo todo =>
      let '(s', savedTodo) := addTodo s todo in
      ([TodoSaving todo; TodoSaved savedTodo], s')
  | UpdateTodo todo =>
      let '(s', savedTodo) := updateTodo s todo in
      ([TodoSaving todo;
        match savedTodo with Some t => TodoSaved t | None => TodoNotSaved todo end], s')
  end.

Inductive todo_list_state : Type :=
| TodoListLoading
| TodoListLoaded (todos : list bag)
| TodoListNotLoaded.

Inductive todo_list_event : Type :=
| LoadTodoList
| RemoveTodo (todo : bag).

(** [TodoListBloc.mapEventToState] over the in-memory service: the states
    it yields, the service afterwards and the events it adds to the Bloc.
    For [RemoveTodo] no state is yielded; [_mapRemoveTodoToState] runs
    without being awaited, removes the to-do and then adds [LoadTodoList]. *)
Definition todo_list_mapEventToState (s : mock_service) (event : todo_list_event)
  : list todo_list_state * mock_service * list todo_list_event :=
  match event with
  | LoadTodoList => ([TodoListLoaded (searchTodos s)], s, [])
  | RemoveTodo todo => ([], fst (removeTodo s todo), [LoadTodoList])
  end.

(** ** Sanity checks on small inputs *)

Example setProps_merge_ex :
  props (setProps (setProps (mount (constructor None)) [("name", JStr "Alice")])
           [("age", JNum (Fin 30))])
  = [("name", JStr "Alice"); ("age", JNum (Fin 30))].
Proof. reflexivity. Qed.

Example onBeforeEnter_ex :
  onBeforeEnter [("/users/42?status=active", [("user", JRef 1); ("status", JRef 2)])]
    (mkLocation "/users/42" "?status=active" [("user", JStr "42")] [("status", "active")])
  = ([], [("user", JRef 1); ("status", JRef 2)]).
Proof. reflexivity. Qed.

(** A query key named like a member of Object.prototype, entered with a
    stash: [passedParams?.[key]] finds the inherited method. *)
Example onBeforeEnter_inherited_ex :
  onBeforeEnter (fst (navigate [] "/p?toString=1" [("x", JNum (Fin 1))]))
    (mkLocation "/p" "?toString=1" [] [("toString", "1")])
  = ([], [("toString", JBuiltin "Object.prototype.toString")]).
Proof. reflexivity. Qed.

(** ** Lemmas on plain objects *)

Section Objects.
Context {A : Type}.
Implicit Types (o acc src : obj A) (k : string) (v : A).

Lemma has_own_get_own o k :
  has_own o k = match get_own o k with Some _ => true | None => false end.
Proof.
  induction o as [|[k0 v0] o IH]; simpl; [reflexivity|].
  destruct (String.eqb k0 k); simpl; auto.
Qed.

Lemma has_own_obj_set o k v k' :
  has_own (obj_set o k v) k' = String.eqb k k' || has_own o k'.
Proof.
  induction o as [|[k0 v0] o IH]; simpl.
  - now rewrite orb_false_r.
  - destruct (String.eqb k0 k) eqn:E; simpl.
    + apply String.eqb_eq in E; subst k0.
      destruct (String.eqb k k'); reflexivity.
    + rewrite IH. destruct (String.eqb k0 k'), (String.eqb k k'); reflexivity.
Qed.

Lemma get_own_obj_set o k v k' :
  get_own (obj_set o k v) k' = if String.eqb k k' then Some v else get_own o k'.
Proof.
  induction o as [|[k0 v0] o IH]; simpl.
  - destruct (String.eqb k k'); reflexivity.
  - destruct (String.eqb k0 k) eqn:E; simpl.
    + apply String.eqb_eq in E; subst k0.
      destruct (String.eqb k k'); reflexivity.
    + rewrite IH. destruct (String.eqb k0 k') eqn:E'; [|reflexivity].
      apply String.eqb_eq in E'; subst k'.
      destruct (String.eqb k k0) eqn:E''; [|reflexivity].
      apply String.eqb_eq in E''; subst. now rewrite String.eqb_refl in E.
Qed.

Lemma keys_obj_set_has o k v :
  has_own o k = true -> keys (obj_set o k v) = keys o.
Proof.
  induction o as [|[k0 v0] o IH]; simpl; [discriminate|].
  destruct (String.eqb k0 k); simpl; [reflexivity|].
  intro H. now rewrite IH.
Qed.

Lemma get_own_app o1 o2 k :
  get_own (o1 ++ o2) k = match get_own o1 k with Some v => Some v | None => get_own o2 k end.
Proof.
  induction o1 as [|[k0 v0] o1 IH]; simpl; [reflexivity|].
  destruct (String.eqb k0 k); auto.
Qed.

Lemma get_own_assign acc src k :
  get_own (assign_into acc src) k =
  match get_own (rev src) k with Some v => Some v | None => get_own acc k end.
Proof.
  revert acc; induction src as [|[k0 v0] src IH]; intro acc; simpl; [reflexivity|].
  unfold assign_into in *; simpl. rewrite IH, get_own_app; simpl.
  rewrite get_own_obj_set.
  destruct (get_own (rev src) k); [reflexivity|].
  destruct (String.eqb k0 k); reflexivity.
Qed.

Lemma has_own_assign acc src k :
  has_own (assign_into acc src) k = has_own src k || has_own acc k.
Proof.
  revert acc; induction src as [|[k0 v0] src IH]; intro acc; simpl; [reflexivity|].
  unfold assign_into in *; simpl. rewrite IH, has_own_obj_set.
  destruct (String.eqb k0 k), (has_own src k); reflexivity.
Qed.

Lemma keys_assign_covered acc src :
  (forall k, has_own src k = true -> has_own acc k = true) ->
  keys (assign_into acc src) = keys acc.
Proof.
  revert acc; induction src as [|[k0 v0] src IH]; intros acc H; simpl; [reflexivity|].
  unfold assign_into in *; simpl.
  assert (Hk0 : has_own acc k0 = true) by (apply H; simpl; now rewrite String.eqb_refl).
  rewrite IH.
  - now apply keys_obj_set_has.
  - intros k Hk. rewrite has_own_obj_set, (H k); [apply orb_true_r|].
    simpl; now rewrite Hk, orb_true_r.
Qed.

Lemma get_own_in o k v : get_own o k = Some v -> In v (map snd o).
Proof.
  induction o as [|[k0 v0] o IH]; simpl; [discriminate|].
  destruct (String.eqb k0 k); [intro H; injection H; auto|auto].
Qed.

Lemma Forall_obj_set (Q : A -> Prop) o k v :
  Forall (fun kv => Q (snd kv)) o -> Q v -> Forall (fun kv => Q (snd kv)) (obj_set o k v).
Proof.
  induction o as [|[k0 v0] o IH]; simpl; intros H Hv; [now constructor|].
  inversion H; subst.
  destruct (String.eqb k0 k); constructor; auto.
Qed.

Lemma Forall_assign (Q : A -> Prop) acc src :
  Forall (fun kv => Q (snd kv)) acc -> Forall (fun kv => Q (snd kv)) src ->
  Forall (fun kv => Q (snd kv)) (assign_into acc src).
Proof.
  revert acc; induction src as [|[k0 v0] src IH]; intros acc Ha Hs; simpl; [assumption|].
  inversion Hs; subst. unfold assign_into in *; simpl.
  apply IH; auto. now apply Forall_obj_set.
Qed.

Lemma Forall_get_own (Q : A -> Prop) o k v :
  Forall (fun kv => Q (snd kv)) o -> get_own o k = Some v -> Q v.
Proof.
  induction o as [|[k0 v0] o IH]; simpl; [discriminate|].
  intros H; inversion H; subst.
  destruct (String.eqb k0 k); [intro E; now injection E as <-|auto].
Qed.

(** Spreading the same object twice adds nothing. *)
Lemma get_own_assign_twice r src k :
  get_own (assign_into (assign_into r src) src) k = get_own (assign_into r src) k.
Proof.
  rewrite !get_own_assign. destruct (get_own (rev src) k); reflexivity.
Qed.

Lemma keys_assign_twice r src :
  keys (assign_into (assign_into r src) src) = keys (assign_into r src).
Proof.
  apply keys_assign_covered. intros k Hk. now rewrite has_own_assign, Hk.
Qed.

End Objects.

Section ObjectKeys.
Context {A : Type}.
Implicit Types (o acc src : obj A) (k : string) (v : A).

Lemma has_own_In o k : has_own o k = true <-> In k (keys o).
Proof.
  induction o as [|[k0 v0] o IH]; simpl; [split; [discriminate|tauto]|].
  rewrite orb_true_iff, String.eqb_eq, IH. tauto.
Qed.

Lemma NoDup_obj_set o k v : NoDup (keys o) -> NoDup (keys (obj_set o k v)).
Proof.
  induction o as [|[k0 v0] o IH]; simpl; intro H.
  - constructor; [tauto|constructor].
  - inversion H as [|? ? Hn Hd]; subst.
    destruct (String.eqb k0 k) eqn:E; simpl; [assumption|].
    constructor; [|now apply IH].
    rewrite <- has_own_In, has_own_obj_set, orb_true_iff, has_own_In.
    intros [Hk|Hk]; [|contradiction].
    apply String.eqb_eq in Hk; subst. now rewrite String.eqb_refl in E.
Qed.

Lemma NoDup_assign acc src : NoDup (keys acc) -> NoDup (keys (assign_into acc src)).
Proof.
  revert acc; induction src as [|[k0 v0] src IH]; intros acc H; simpl; [assumption|].
  unfold assign_into in *; simpl. apply IH. now apply NoDup_obj_set.
Qed.

Lemma obj_set_new o k v : has_own o k = false -> obj_set o k v = o ++ [(k, v)].
Proof.
  induction o as [|[k0 v0] o IH]; simpl; [reflexivity|].
  intro H. apply orb_false_iff in H as [H1 H2].
  rewrite H1, IH; auto.
Qed.

(** Copying an object with distinct keys into a fresh object reproduces it. *)
Lemma assign_into_app acc o :
  NoDup (keys (acc ++ o)) -> assign_into acc o = acc ++ o.
Proof.
  revert acc; induction o as [|[k0 v0] o IH]; intros acc H; simpl.
  - now rewrite app_nil_r.
  - unfold assign_into in *; simpl.
    assert (Hn : has_own acc k0 = false).
    { destruct (has_own acc k0) eqn:E; [|reflexivity].
      apply has_own_In in E. unfold keys in H. rewrite map_app in H. simpl in H.
      apply NoDup_remove_2 in H. exfalso; apply H. apply in_or_app; now left. }
    rewrite obj_set_new by exact Hn.
    rewrite IH; [now rewrite <- app_assoc|].
    now rewrite <- app_assoc.
Qed.

Lemma assign_into_nil o : NoDup (keys o) -> assign_into [] o = o.
Proof. intro H. now apply (assign_into_app []). Qed.

Lemma NoDup_spread (a b : obj A) : NoDup (keys (spread a b)).
Proof. unfold spread. apply NoDup_assign, NoDup_assign. constructor. Qed.

End ObjectKeys.

(** ** Lemmas on the component's methods *)

Definition no_nan (o : bag) : Prop := Forall (fun kv => strict_eq (snd kv) (snd kv) = true) o.

(** No own property shadows the inherited [hasOwnProperty] method, the case
    in which [shallowEquals] follows the code. *)
Definition no_shadow (o : bag) : Prop := has_own o "hasOwnProperty" = false.

Lemma strict_eq_undef : strict_eq JUndef JUndef = true.
Proof. reflexivity. Qed.

Lemma shallowEquals_same (q q' : bag) :
  keys q' = keys q -> (forall k, get_own q' k = get_own q k) -> no_nan q ->
  shallowEquals q q' = true.
Proof.
  intros Hk Hg Hq. unfold shallowEquals. rewrite Hk, Nat.eqb_refl; simpl.
  apply forallb_forall. intros k Hin.
  rewrite has_own_get_own, Hg, <- has_own_get_own.
  apply has_own_In in Hin. rewrite Hin; simpl.
  unfold get_prop. rewrite Hg.
  destruct (get_own q k) eqn:E; [|reflexivity].
  exact (Forall_get_own (fun v => strict_eq v v = true) q k j Hq E).
Qed.

Lemma props_requestUpdate c : props (requestUpdate c) = props c.
Proof. unfold requestUpdate. now destruct (shadowRoot c). Qed.

Lemma count_renders_app l1 l2 : count_renders (l1 ++ l2) = count_renders l1 + count_renders l2.
Proof. induction l1 as [|[] l1 IH]; simpl; auto. Qed.

(** [setProps] either leaves the component as it is or replaces the
    props by the merge, rendering at most once. *)
Lemma setProps_cases c P :
  setProps c P = c \/
  (shallowEquals (props c) (spread (props c) P) = false /\
   props (setProps c P) = spread (props c) P /\
   count_renders (log (setProps c P)) <= S (count_renders (log c))).
Proof.
  unfold setProps.
  destruct (shallowEquals (props c) (spread (props c) P)) eqn:E; simpl; [now left|right].
  split; [reflexivity|].
  destruct (isConnected c); simpl.
  - unfold requestUpdate; simpl. destruct (shadowRoot c); simpl; [|split; auto].
    rewrite count_renders_app; simpl. split; [reflexivity|lia].
  - split; auto.
Qed.

Lemma setProps_noop c P :
  shallowEquals (props c) (spread (props c) P) = true -> setProps c P = c.
Proof. intro E. unfold setProps. now rewrite E. Qed.

(** After a merge with [P], merging [P] again gives a shallow-equal bag,
    provided no value involved is NaN. *)
Lemma shallowEquals_spread_twice (p P : bag) :
  no_nan (p ++ P) -> shallowEquals (spread p P) (spread (spread p P) P) = true.
Proof.
  intro H. apply Forall_app in H as [Hp HP].
  unfold spread at 2. rewrite (assign_into_nil (spread p P)) by apply NoDup_spread.
  unfold spread. apply shallowEquals_same.
  - apply keys_assign_twice.
  - intro k. apply get_own_assign_twice.
  - apply (Forall_assign (fun v => strict_eq v v = true));
      [apply (Forall_assign (fun v => strict_eq v v = true)); [constructor|]|]; assumption.
Qed.

(** ** C1: repeating [setProps] *)

(** Claim C1 (as corrected): when no value of the current props nor of [P]
    is NaN, and neither has an own property named [hasOwnProperty], a
    second [setProps(P)] right after a first one is a no-op, so the two
    calls render at most once. *)
Theorem setProps_idempotent_no_nan (c : component) (P : bag) :
  no_nan (props c ++ P) -> no_shadow (props c) -> no_shadow P ->
  setProps (setProps c P) P = setProps c P /\
  count_renders (log (setProps (setProps c P) P)) <= S (count_renders (log c)).
Proof.
  intros H _ _.
  destruct (setProps_cases c P) as [E | [_ [E2 E3]]].
  - rewrite !E. split; [reflexivity|lia].
  - assert (Hn : setProps (setProps c P) P = setProps c P).
    { apply setProps_noop. rewrite E2. now apply shallowEquals_spread_twice. }
    rewrite Hn. split; [reflexivity|exact E3].
Qed.

Lemma setProps_idempotent_no_nan_witness :
  no_nan (props (mount (constructor None)) ++ [("name", JStr "Alice")]) /\
  no_shadow (props (mount (constructor None))) /\ no_shadow [("name", JStr "Alice")] /\
  setProps (setProps (mount (constructor None)) [("name", JStr "Alice")]) [("name", JStr "Alice")]
  = setProps (mount (constructor None)) [("name", JStr "Alice")] /\
  count_renders (log (setProps (setProps (mount (constructor None)) [("name", JStr "Alice")])
                        [("name", JStr "Alice")]))
  <= S (count_renders (log (mount (constructor None)))).
Proof.
  assert (H : no_nan (props (mount (constructor None)) ++ [("name", JStr "Alice")]))
    by (repeat constructor).
  assert (H1 : no_shadow (props (mount (constructor None)))) by reflexivity.
  assert (H2 : no_shadow [("name", JStr "Alice")]) by reflexivity.
  split; [exact H|split; [exact H1|split; [exact H2|]]].
  exact (setProps_idempotent_no_nan _ _ H H1 H2).
Defined.

(** Claim C1 fails for a NaN value: on a mounted component, two calls
    [setProps({ x: NaN })] render twice, since [NaN !== NaN]. *)
Lemma setProps_twice_nan_renders_twice :
  let c := mount (constructor None) in
  let P := [("x", JNum NaN)] in
  count_renders (log (setProps (setProps c P) P)) = 2 + count_renders (log c) /\
  setProps (setProps c P) P <> setProps c P.
Proof.
  simpl. split; [reflexivity|]. vm_compute. discriminate.
Qed.

(** ** C2: the merge is additive *)

Lemma has_own_setProps c P k :
  has_own (props c) k = true -> has_own (props (setProps c P)) k = true.
Proof.
  intro H. destruct (setProps_cases c P) as [E | [_ [E2 _]]].
  - now rewrite E.
  - rewrite E2. unfold spread. now rewrite !has_own_assign, H, !orb_true_r.
Qed.

Lemma get_own_setProps_other c P k :
  NoDup (keys (props c)) -> has_own P k = false ->
  get_own (props (setProps c P)) k = get_own (props c) k.
Proof.
  intros Hd Hk. destruct (setProps_cases c P) as [E | [_ [E2 _]]].
  - now rewrite E.
  - rewrite E2. unfold spread. rewrite (assign_into_nil (props c)) by exact Hd.
    rewrite get_own_assign.
    assert (Hr : get_own (rev P) k = None).
    { destruct (get_own (rev P) k) eqn:E; [|reflexivity].
      exfalso. assert (Hh : has_own (rev P) k = true) by (now rewrite has_own_get_own, E).
      rewrite has_own_In in Hh. unfold keys in Hh. rewrite map_rev, <- in_rev in Hh.
      apply has_own_In in Hh. congruence. }
    now rewrite Hr.
Qed.

Lemma has_own_assign_props c a k :
  has_own (props c) k = true -> has_own (props (assign_props c a)) k = true.
Proof.
  revert c; induction a as [|kv a IH]; intros c H; simpl; [assumption|].
  apply IH. now apply has_own_setProps.
Qed.

Lemma has_own_step c o k :
  has_own (props c) k = true -> has_own (props (step c o)) k = true.
Proof.
  intro H. destruct o as [P| | | |s|a]; simpl.
  - now apply has_own_setProps.
  - unfold mount, connectedCallback. rewrite props_requestUpdate.
    destruct (cbloc (with_connected c true)); exact H.
  - unfold unmount, disconnectedCallback; simpl.
    destruct (subscription c); simpl; destruct (cbloc c); exact H.
  - now rewrite props_requestUpdate.
  - unfold on_bloc_state. now rewrite props_requestUpdate.
  - now apply has_own_assign_props.
Qed.

Lemma has_own_run c ops k :
  has_own (props c) k = true -> has_own (props (run c ops)) k = true.
Proof.
  revert c; induction ops as [|o ops IH]; intros c H; simpl; [assumption|].
  apply IH. now apply has_own_step.
Qed.

(** Claim C2: [setProps(P)] keeps every key of the current props and the
    value of every key absent from [P]; and no sequence of the component's
    operations ([setProps], mounting, unmounting, [requestUpdate], Bloc
    emissions, route assignments through setters) ever removes a key. *)
Theorem setProps_additive (c : component) (P : bag) :
  NoDup (keys (props c)) ->
  (forall k, has_own (props c) k = true -> has_own (props (setProps c P)) k = true) /\
  (forall k, has_own P k = false -> get_own (props (setProps c P)) k = get_own (props c) k) /\
  (forall ops k, has_own (props c) k = true -> has_own (props (run c ops)) k = true).
Proof.
  intro Hd. split; [|split].
  - intros k. apply has_own_setProps.
  - intros k. now apply get_own_setProps_other.
  - intros ops k. apply has_own_run.
Qed.

Lemma setProps_additive_witness :
  let c := setProps (mount (constructor None)) [("name", JStr "Alice"); ("age", JNum (Fin 30))] in
  NoDup (keys (props c)) /\
  get_own (props (setProps c [("age", JNum (Fin 31))])) "name" = Some (JStr "Alice").
Proof.
  intro c.
  assert (Hd : NoDup (keys (props c))) by (vm_compute; repeat constructor; simpl; intuition discriminate).
  split; [exact Hd|].
  destruct (setProps_additive c [("age", JNum (Fin 31))] Hd) as [_ [Hg _]].
  rewrite (Hg "name" eq_refl). reflexivity.
Defined.

(** ** C3: the render on mount *)

Lemma setProps_premount (p : bag) (b : option bloc) (P : bag) :
  NoDup (keys p) ->
  exists p', NoDup (keys p') /\
    setProps (mkComponent p b None false true []) P = mkComponent p' b None false true [].
Proof.
  intro Hd. unfold setProps; simpl.
  destruct (shallowEquals p (spread p P)); simpl.
  - exists p; auto.
  - exists (spread p P). split; [apply NoDup_spread|reflexivity].
Qed.

Lemma premount_shape (b : option bloc) (Ps : list bag) :
  exists p, NoDup (keys p) /\
    fold_left setProps Ps (constructor b) = mkComponent p b None false true [].
Proof.
  unfold constructor.
  assert (H : forall p, NoDup (keys p) -> exists p', NoDup (keys p') /\
            fold_left setProps Ps (mkComponent p b None false true []) =
            mkComponent p' b None false true []).
  { induction Ps as [|P Ps IH]; intros p Hd; simpl; [exists p; auto|].
    destruct (setProps_premount p b P Hd) as [p' [Hd' E]]. rewrite E. now apply IH. }
  apply H. constructor.
Qed.

(** Claim C3: a component built by the constructor and given any props
    before it is attached has rendered nothing; attaching it renders exactly
    once, with the current props and [state] set to the Bloc's state, or to
    undefined when no Bloc is bound.  In particular the scenario
    [setProps({ name: "Alice" })] then mount, without a Bloc, renders once
    with [{ name: "Alice", state: undefined }]. *)
Theorem mount_renders_once (b : option bloc) (Ps : list bag) :
  let c := fold_left setProps Ps (constructor b) in
  log c = [] /\
  log (mount c) =
    (match b with Some _ => [BlocListen] | None => [] end) ++
    [Render (obj_set (props c) "state" (match b with Some bl => bloc_state bl | None => JUndef end))] /\
  log (mount (setProps (constructor None) [("name", JStr "Alice")])) =
    [Render [("name", JStr "Alice"); ("state", JUndef)]].
Proof.
  simpl. destruct (premount_shape b Ps) as [p [Hd E]]. rewrite E.
  split; [reflexivity|split; [|reflexivity]].
  unfold mount, connectedCallback, requestUpdate, render_data; simpl.
  destruct b; simpl; unfold spread; rewrite (assign_into_nil p Hd); reflexivity.
Qed.

(** ** Lemmas on route entry *)

Definition jstr_entry (kv : string * string) : string * jsval := (fst kv, JStr (snd kv)).

Lemma fromEntries_assign l : fromEntries l = assign_into [] (map jstr_entry l).
Proof.
  unfold fromEntries, assign_into. generalize (@nil (string * jsval)).
  induction l as [|kv l IH]; intro acc; simpl; [reflexivity|]. apply IH.
Qed.

Lemma get_own_map {A B} (f : string -> A -> B) (o : obj A) k :
  get_own (map (fun kv => (fst kv, f (fst kv) (snd kv))) o) k = option_map (f k) (get_own o k).
Proof.
  induction o as [|[k0 v0] o IH]; simpl; [reflexivity|].
  destruct (String.eqb k0 k) eqn:E; [|exact IH].
  apply String.eqb_eq in E; now subst.
Qed.

Lemma has_own_map {A B} (f : string -> A -> B) (o : obj A) k :
  has_own (map (fun kv => (fst kv, f (fst kv) (snd kv))) o) k = has_own o k.
Proof. induction o as [|[k0 v0] o IH]; simpl; [reflexivity|]. now rewrite IH. Qed.

Lemma keys_map {A B} (f : string -> A -> B) (o : obj A) :
  keys (map (fun kv => (fst kv, f (fst kv) (snd kv))) o) = keys o.
Proof. unfold keys. rewrite map_map. reflexivity. Qed.

Lemma get_own_fromEntries l k :
  get_own (fromEntries l) k = option_map JStr (get_own (rev l) k).
Proof.
  rewrite fromEntries_assign, get_own_assign, <- map_rev.
  unfold jstr_entry.
  rewrite (get_own_map (fun _ s => JStr s) (rev l) k).
  now destruct (option_map JStr (get_own (rev l) k)).
Qed.

Lemma has_own_fromEntries l k : has_own (fromEntries l) k = has_own l k.
Proof.
  rewrite fromEntries_assign, has_own_assign, orb_false_r.
  apply (has_own_map (fun _ s => JStr s)).
Qed.

Lemma has_own_obj_delete {A} (o : obj A) k : has_own (obj_delete o k) k = false.
Proof.
  induction o as [|[k0 v0] o IH]; simpl; [reflexivity|].
  destruct (String.eqb k0 k) eqn:E; simpl; [exact IH|].
  now rewrite E, IH.
Qed.

Lemma get_own_rev {A} (o : obj A) k : NoDup (keys o) -> get_own (rev o) k = get_own o k.
Proof.
  intro Hd. pose proof (get_own_assign [] o k) as E.
  rewrite (assign_into_nil o Hd) in E. rewrite E.
  now destruct (get_own (rev o) k).
Qed.

(** The stashed value [passedParams?.[key]]. *)
Definition stashed (window : store) (loc : location) (k : string) : jsval :=
  match get_own window (pathname loc ++ search loc) with Some p => get_member p k | None => JUndef end.

Lemma get_own_onBeforeEnter window loc k :
  NoDup (keys (params loc)) ->
  get_own (snd (onBeforeEnter window loc)) k =
    match get_own (rev (searchParams loc)) k with
    | Some s => Some (nullish (stashed window loc k) (JStr s))
    | None => option_map (nullish (stashed window loc k)) (get_own (params loc) k)
    end.
Proof.
  intro Hd. unfold onBeforeEnter; simpl.
  rewrite (get_own_map (fun k v => nullish
     (match get_own window (pathname loc ++ search loc) with
      | Some p => get_member p k | None => JUndef end) v)).
  unfold spread. rewrite get_own_assign.
  rewrite get_own_rev by (rewrite fromEntries_assign; apply NoDup_assign; constructor).
  rewrite get_own_fromEntries.
  rewrite (assign_into_nil (params loc) Hd). unfold stashed.
  destruct (get_own (rev (searchParams loc)) k); reflexivity.
Qed.

Lemma has_own_onBeforeEnter window loc k :
  has_own (snd (onBeforeEnter window loc)) k = has_own (params loc) k || has_own (searchParams loc) k.
Proof.
  unfold onBeforeEnter; simpl.
  rewrite (has_own_map (fun k v => nullish
     (match get_own window (pathname loc ++ search loc) with
      | Some p => get_member p k | None => JUndef end) v)).
  unfold spread. rewrite !has_own_assign, has_own_fromEntries, orb_false_r.
  apply orb_comm.
Qed.

Lemma NoDup_onBeforeEnter window loc : NoDup (keys (snd (onBeforeEnter window loc))).
Proof.
  unfold onBeforeEnter; simpl.
  rewrite (keys_map (fun k v => nullish
     (match get_own window (pathname loc ++ search loc) with
      | Some p => get_member p k | None => JUndef end) v)).
  apply NoDup_spread.
Qed.

Lemma store_onBeforeEnter window loc :
  fst (onBeforeEnter window loc) = obj_delete window (pathname loc ++ search loc).
Proof. reflexivity. Qed.

(** ** C4: precedence of route parameters *)




(** ** C10: only URL keys are assigned *)

(** Claim C10: route entry assigns a property exactly for the keys of the
    path parameters and of the query string, whatever was stashed; and the
    stashed entry for the path and query string is removed from the store. *)
Theorem onBeforeEnter_assigns_only_url_keys (window : store) (loc : location) (k : string) :
  has_own (snd (onBeforeEnter window loc)) k = has_own (params loc) k || has_own (searchParams loc) k /\
  fst (onBeforeEnter window loc) = obj_delete window (pathname loc ++ search loc) /\
  has_own (fst (onBeforeEnter window loc)) (pathname loc ++ search loc) = false.
Proof.
  split; [apply has_own_onBeforeEnter|split; [apply store_onBeforeEnter|]].
  rewrite store_onBeforeEnter. apply has_own_obj_delete.
Qed.

(** ** Lemmas on setters *)

Lemma strict_eq_true a b : strict_eq a b = true -> a = b.
Proof.
  destruct a as [| |x|x|x|x|x], b as [| |y|y|y|y|y]; simpl; try discriminate; auto.
  - intro H. apply Bool.eqb_prop in H. now subst.
  - destruct x as [|x|x], y as [|y|y]; simpl; try discriminate.
    + intro H. apply Z.eqb_eq in H. now subst.
    + intro H. apply Bool.eqb_prop in H. now subst.
  - intro H. apply String.eqb_eq in H. now subst.
  - intro H. apply N.eqb_eq in H. now subst.
  - intro H. apply String.eqb_eq in H. now subst.
Qed.

Lemma NoDup_setProps c P :
  NoDup (keys (props c)) -> NoDup (keys (props (setProps c P))).
Proof.
  intro Hd. destruct (setProps_cases c P) as [E | [_ [E2 _]]].
  - now rewrite E.
  - rewrite E2. apply NoDup_spread.
Qed.

Lemma get_own_spread_single (p : bag) k v : get_own (spread p [(k, v)]) k = Some v.
Proof. unfold spread. rewrite get_own_assign. simpl. now rewrite String.eqb_refl. Qed.

Lemma get_own_setProps_same c k v :
  NoDup (keys (props c)) -> get_own (props (setProps c [(k, v)])) k = Some v.
Proof.
  intro Hd. destruct (setProps_cases c [(k, v)]) as [E | [_ [E2 _]]].
  - rewrite E. unfold setProps in E.
    destruct (shallowEquals (props c) (spread (props c) [(k, v)])) eqn:Es; simpl in E.
    2:{ rewrite <- E. destruct (isConnected c); [rewrite props_requestUpdate|]; simpl;
        apply get_own_spread_single. }
    unfold shallowEquals in Es. apply andb_true_iff in Es as [El Ef].
    destruct (has_own (props c) k) eqn:Hk.
    + rewrite forallb_forall in Ef. apply has_own_In in Hk as Hin.
      specialize (Ef k Hin). apply andb_true_iff in Ef as [_ Ev].
      apply strict_eq_true in Ev. unfold get_prop in Ev.
      rewrite get_own_spread_single in Ev.
      rewrite has_own_get_own in Hk. destruct (get_own (props c) k); [now subst|discriminate].
    + exfalso. unfold spread in El. rewrite (assign_into_nil (props c) Hd) in El.
      unfold assign_into in El; simpl in El. rewrite (obj_set_new _ _ _ Hk) in El.
      unfold keys in El. rewrite !length_map, length_app in El. simpl in El.
      apply Nat.eqb_eq in El. lia.
  - rewrite E2. apply get_own_spread_single.
Qed.

(** Assigning distinct keys through setters sets exactly those props. *)
Lemma get_own_assign_props c a k :
  NoDup (keys (props c)) -> NoDup (keys a) ->
  get_own (props (assign_props c a)) k =
    match get_own a k with Some v => Some v | None => get_own (props c) k end.
Proof.
  revert c; induction a as [|[k0 v0] a IH]; intros c Hd Ha; [reflexivity|].
  inversion Ha as [|? ? Hn Ha']; subst.
  change (assign_props c ((k0, v0) :: a)) with (assign_props (setProps c [(k0, v0)]) a).
  simpl get_own at 2.
  rewrite IH; [|now apply NoDup_setProps|assumption].
  destruct (String.eqb k0 k) eqn:E.
  - apply String.eqb_eq in E; subst k0.
    assert (Hr : get_own a k = None).
    { destruct (get_own a k) eqn:Eg; [|reflexivity]. exfalso; apply Hn.
      apply has_own_In. now rewrite has_own_get_own, Eg. }
    rewrite Hr. now apply get_own_setProps_same.
  - destruct (get_own a k); [reflexivity|].
    apply get_own_setProps_other; [assumption|]. simpl. now rewrite E.
Qed.

Lemma has_own_rev {A} (o : obj A) k : has_own (rev o) k = has_own o k.
Proof.
  apply Bool.eq_true_iff_eq. rewrite !has_own_In. unfold keys. rewrite map_rev.
  symmetry. apply in_rev.
Qed.

(** ** C5: navigating with stashed parameters *)

(** Claim C5, what the code does: after [navigate("/x", { params: { a: 1 } })]
    and route entry at a location whose path and query string form ["/x"],
    the store holds no entry for ["/x"] any more, and the component (any
    component whose setters follow the documented convention) observes
    [a = 1] exactly when [a] is a path parameter or a query parameter of the
    location; otherwise [a] is not assigned at all. *)
Theorem navigate_then_enter (window : store) (loc : location) (c : component) :
  (pathname loc ++ search loc)%string = "/x" ->
  NoDup (keys (props c)) -> NoDup (keys (params loc)) ->
  let w1 := fst (navigate window "/x" [("a", JNum (Fin 1))]) in
  let r := onBeforeEnter w1 loc in
  has_own (fst r) "/x" = false /\
  get_own (props (assign_props c (snd r))) "a" =
    if has_own (params loc) "a" || has_own (searchParams loc) "a"
    then Some (JNum (Fin 1)) else get_own (props c) "a".
Proof.
  intros Hp Hd Hdp w1 r. split.
  - unfold r. rewrite store_onBeforeEnter, Hp. apply has_own_obj_delete.
  - unfold r. rewrite get_own_assign_props by (assumption || apply NoDup_onBeforeEnter).
    rewrite get_own_onBeforeEnter by exact Hdp.
    assert (Hs : stashed w1 loc "a" = JNum (Fin 1)).
    { unfold stashed, w1, navigate; simpl. rewrite Hp, get_own_obj_set. reflexivity. }
    rewrite Hs. rewrite <- (has_own_rev (searchParams loc)), !has_own_get_own.
    destruct (get_own (rev (searchParams loc)) "a"); simpl; [now rewrite orb_true_r|].
    rewrite orb_false_r. destruct (get_own (params loc) "a"); reflexivity.
Qed.

Lemma navigate_then_enter_witness :
  let loc := mkLocation "/x" "" [("a", JStr "0")] [] in
  (pathname loc ++ search loc)%string = "/x" /\
  NoDup (keys (props (constructor None))) /\ NoDup (keys (params loc)) /\
  get_own (props (assign_props (constructor None)
     (snd (onBeforeEnter (fst (navigate [] "/x" [("a", JNum (Fin 1))])) loc)))) "a"
  = Some (JNum (Fin 1)).
Proof.
  intro loc.
  assert (H1 : (pathname loc ++ search loc)%string = "/x") by reflexivity.
  assert (H2 : NoDup (keys (props (constructor None)))) by constructor.
  assert (H3 : NoDup (keys (params loc))) by (repeat constructor; simpl; tauto).
  split; [exact H1|split; [exact H2|split; [exact H3|]]].
  destruct (navigate_then_enter [] loc (constructor None) H1 H2 H3) as [_ E].
  rewrite E. reflexivity.
Defined.

(** Claim C5 fails on a route [/x] without parameters: after
    [navigate("/x", { params: { a: 1 } })] and route entry at [/x], the
    stashed entry is removed but [a] is never assigned.  The README's
    routing example fails the same way: [/users/:id] entered at
    [/users/42?status=active] after [navigate] stashed [{ user, status }]
    assigns [id] and [status] only, so [UserScreen] never receives [user]
    and its [render] reads [user.id] of undefined. *)
Lemma navigate_then_enter_a_not_observed :
  (let w1 := fst (navigate [] "/x" [("a", JNum (Fin 1))]) in
   let r := onBeforeEnter w1 (mkLocation "/x" "" [] []) in
   has_own w1 "/x" = true /\
   snd r = [] /\
   has_own (fst r) "/x" = false /\
   get_own (props (assign_props (constructor None) (snd r))) "a" <> Some (JNum (Fin 1))) /\
  (let w1 := fst (navigate [] "/users/42?status=active" [("user", JRef 1); ("status", JRef 2)]) in
   let r := onBeforeEnter w1
              (mkLocation "/users/42" "?status=active" [("id", JStr "42")] [("status", "active")]) in
   snd r = [("id", JStr "42"); ("status", JRef 2)] /\
   has_own (props (assign_props (constructor None) (snd r))) "user" = false).
Proof. vm_compute. repeat split; try reflexivity; discriminate. Qed.

(** ** C7: unmounting *)

Lemma count_close_app l1 l2 : count_close (l1 ++ l2) = count_close l1 + count_close l2.
Proof. induction l1 as [|[] l1 IH]; simpl; auto. Qed.

(** Claim C7: [disconnectedCallback] unsubscribes the subscription if
    there is one and does nothing about it otherwise, then closes the Bloc
    exactly once if one is bound and closes nothing otherwise; for a
    component that was mounted, the subscription made on mount is the one
    cancelled. *)
Theorem unmount_closes_once (c : component) :
  log (unmount c) =
    log c ++ (match subscription c with Some s => [Unsubscribe s] | None => [] end)
          ++ (match cbloc c with Some _ => [BlocClose] | None => [] end) /\
  count_close (log (unmount c)) =
    count_close (log c) + (match cbloc c with Some _ => 1 | None => 0 end) /\
  log (unmount (mount c)) =
    log (mount c) ++ (match cbloc c with
                      | Some _ => [Unsubscribe (length (log c)); BlocClose]
                      | None => [] end).
Proof.
  assert (E : forall c, log (unmount c) =
    log c ++ (match subscription c with Some s => [Unsubscribe s] | None => [] end)
          ++ (match cbloc c with Some _ => [BlocClose] | None => [] end)).
  { intro c0. unfold unmount, disconnectedCallback; simpl.
    destruct (subscription c0); simpl; destruct (cbloc c0); simpl;
      rewrite ?app_nil_r, <- ?app_assoc; reflexivity. }
  split; [apply E|split].
  - rewrite E, !count_close_app.
    destruct (subscription c), (cbloc c); simpl; lia.
  - rewrite E. f_equal.
    unfold mount, connectedCallback, requestUpdate, with_log, with_subscription, with_connected.
    destruct (cbloc c), (shadowRoot c); reflexivity.
Qed.

(** ** C9: rendering without a shadow root *)

(** Claim C9: without a shadow root, [requestUpdate] renders nothing and
    leaves the component unchanged. *)
Theorem requestUpdate_no_shadow (c : component) :
  shadowRoot c = false -> requestUpdate c = c.
Proof. intro H. unfold requestUpdate. now rewrite H. Qed.

Lemma requestUpdate_no_shadow_witness :
  let c := mkComponent [("name", JStr "Alice")] None None true false [] in
  shadowRoot c = false /\ requestUpdate c = c.
Proof.
  intro c. split; [reflexivity|]. apply requestUpdate_no_shadow. reflexivity.
Defined.

(** * Further properties of the component *)

(** A [true] answer of [#shallowEquals] means the two bags agree on every
    key; for a bag without NaN values the converse holds. *)
Lemma shallowEquals_true_get (a b : bag) :
  NoDup (keys a) -> shallowEquals a b = true -> forall k, get_own a k = get_own b k.
Proof.
  intros Hd E k. unfold shallowEquals in E. apply andb_true_iff in E as [El Ef].
  apply Nat.eqb_eq in El. rewrite forallb_forall in Ef.
  assert (Hincl : incl (keys b) (keys a)).
  { apply NoDup_length_incl; [assumption|lia|].
    intros x Hx. specialize (Ef x Hx). apply andb_true_iff in Ef as [Eh _].
    now apply has_own_In. }
  destruct (has_own a k) eqn:Hk.
  - apply has_own_In in Hk as Hin. specialize (Ef k Hin).
    apply andb_true_iff in Ef as [Eh Ev]. apply strict_eq_true in Ev.
    unfold get_prop in Ev. rewrite has_own_get_own in Hk, Eh.
    destruct (get_own a k), (get_own b k); congruence.
  - assert (Hb : has_own b k = false).
    { destruct (has_own b k) eqn:Hb; [|reflexivity].
      apply has_own_In, Hincl, has_own_In in Hb. congruence. }
    rewrite has_own_get_own in Hk, Hb.
    destruct (get_own a k), (get_own b k); congruence.
Qed.

Lemma shallowEquals_of_get (a b : bag) :
  NoDup (keys a) -> NoDup (keys b) -> no_nan a ->
  (forall k, get_own a k = get_own b k) -> shallowEquals a b = true.
Proof.
  intros Ha Hb Hn Hg.
  assert (Hk : forall k, In k (keys a) <-> In k (keys b)).
  { intro k. rewrite <- !has_own_In, !has_own_get_own, Hg. reflexivity. }
  assert (El : length (keys a) = length (keys b)).
  { apply Nat.le_antisymm; apply NoDup_incl_length; auto; intros x; apply Hk. }
  unfold shallowEquals. rewrite El, Nat.eqb_refl; simpl.
  apply forallb_forall. intros k Hin.
  apply Hk, has_own_In in Hin. rewrite Hin; simpl.
  unfold get_prop. rewrite <- Hg.
  destruct (get_own a k) eqn:E; [|reflexivity].
  exact (Forall_get_own (fun v => strict_eq v v = true) a k j Hn E).
Qed.

(** [#shallowEquals(a, b)] holds exactly when [a] and [b] have the same
    own properties with the same values, for bags with distinct keys, no
    NaN value in [a] and no own property [hasOwnProperty] in [b]. *)
Theorem shallowEquals_iff_same_entries (a b : bag) :
  NoDup (keys a) -> NoDup (keys b) -> no_nan a -> no_shadow b ->
  shallowEquals a b = true <-> (forall k, get_own a k = get_own b k).
Proof.
  intros Ha Hb Hn _. split; [now apply shallowEquals_true_get|].
  now apply shallowEquals_of_get.
Qed.

Lemma shallowEquals_iff_same_entries_witness :
  let a := [("name", JStr "Alice"); ("age", JNum (Fin 30))] in
  let b := [("age", JNum (Fin 30)); ("name", JStr "Alice")] in
  NoDup (keys a) /\ NoDup (keys b) /\ no_nan a /\ no_shadow b /\ shallowEquals a b = true.
Proof.
  intros a b.
  assert (H1 : NoDup (keys a)) by (repeat constructor; simpl; intuition discriminate).
  assert (H2 : NoDup (keys b)) by (repeat constructor; simpl; intuition discriminate).
  assert (H3 : no_nan a) by (repeat constructor).
  assert (H4 : no_shadow b) by reflexivity.
  split; [exact H1|split; [exact H2|split; [exact H3|split; [exact H4|]]]].
  apply (shallowEquals_iff_same_entries a b H1 H2 H3 H4).
  intro k. unfold a, b; cbn [get_own].
  destruct (String.eqb "name" k) eqn:E1; destruct (String.eqb "age" k) eqn:E2; try reflexivity.
  apply String.eqb_eq in E1; apply String.eqb_eq in E2; congruence.
Defined.

Lemma get_own_props_setProps (c : component) (P : bag) (k : string) :
  NoDup (keys (props c)) ->
  get_own (props (setProps c P)) k =
    match get_own (rev P) k with Some v => Some v | None => get_own (props c) k end.
Proof.
  intro Hd.
  assert (Hs : get_own (spread (props c) P) k =
               match get_own (rev P) k with Some v => Some v | None => get_own (props c) k end).
  { unfold spread. rewrite get_own_assign, (assign_into_nil _ Hd). reflexivity. }
  unfold setProps.
  destruct (shallowEquals (props c) (spread (props c) P)) eqn:E; simpl.
  - rewrite <- Hs. now apply shallowEquals_true_get.
  - destruct (isConnected c); [rewrite props_requestUpdate|]; exact Hs.
Qed.

(** After [setProps(P)], every key of [P] holds [P]'s value (the last one
    for a repeated key) and every other key keeps its value. *)
Theorem setProps_get (c : component) (P : bag) (k : string) :
  NoDup (keys (props c)) ->
  get_own (props (setProps c P)) k =
    match get_own (rev P) k with Some v => Some v | None => get_own (props c) k end.
Proof. apply get_own_props_setProps. Qed.

Lemma setProps_get_witness :
  NoDup (keys (props (setProps (mount (constructor None)) [("name", JStr "Alice")]))) /\
  get_own (props (setProps (setProps (mount (constructor None)) [("name", JStr "Alice")])
                    [("name", JStr "Bob")])) "name" = Some (JStr "Bob").
Proof.
  assert (H : NoDup (keys (props (setProps (mount (constructor None)) [("name", JStr "Alice")]))))
    by (vm_compute; repeat constructor; simpl; tauto).
  split; [exact H|]. rewrite (setProps_get _ [("name", JStr "Bob")] "name" H). reflexivity.
Defined.

(** [setProps(P)] leaves the component untouched exactly when every key of
    [P] already holds [P]'s value, for props with no NaN value and no own
    property [hasOwnProperty] in the props or in [P]. *)
Theorem setProps_noop_iff (c : component) (P : bag) :
  NoDup (keys (props c)) -> no_nan (props c) -> no_shadow (props c) -> no_shadow P ->
  setProps c P = c <-> (forall k v, get_own (rev P) k = Some v -> get_own (props c) k = Some v).
Proof.
  intros Hd Hn _ _. split.
  - intros E k v Hv. pose proof (get_own_props_setProps c P k Hd) as G.
    rewrite E, Hv in G. exact G.
  - intro H. apply setProps_noop.
    apply shallowEquals_of_get; [exact Hd|apply NoDup_spread|exact Hn|].
    intro k. unfold spread. rewrite get_own_assign, (assign_into_nil _ Hd).
    destruct (get_own (rev P) k) eqn:E; [now apply H|reflexivity].
Qed.

Lemma setProps_noop_iff_witness :
  let c := setProps (mount (constructor None)) [("name", JStr "Alice")] in
  NoDup (keys (props c)) /\ no_nan (props c) /\ no_shadow (props c) /\
  no_shadow [("name", JStr "Alice")] /\ setProps c [("name", JStr "Alice")] = c.
Proof.
  intro c.
  assert (H1 : NoDup (keys (props c))) by (vm_compute; repeat constructor; simpl; tauto).
  assert (H2 : no_nan (props c)) by (vm_compute; repeat constructor).
  assert (H3 : no_shadow (props c)) by reflexivity.
  assert (H4 : no_shadow [("name", JStr "Alice")]) by reflexivity.
  split; [exact H1|split; [exact H2|split; [exact H3|split; [exact H4|]]]].
  apply (setProps_noop_iff c [("name", JStr "Alice")] H1 H2 H3 H4).
  intros k v Hv. cbn [rev app get_own] in Hv.
  destruct (String.eqb "name" k) eqn:E; [|discriminate].
  injection Hv as <-. apply String.eqb_eq in E. subst k. reflexivity.
Defined.

Lemma render_data_eq c1 c2 :
  props c1 = props c2 -> cbloc c1 = cbloc c2 -> render_data c1 = render_data c2.
Proof. intros E1 E2. unfold render_data. now rewrite E1, E2. Qed.

Lemma mount_fields c :
  props (mount c) = props c /\ cbloc (mount c) = cbloc c /\ shadowRoot (mount c) = shadowRoot c /\
  log (mount c) = log c ++ (match cbloc c with Some _ => [BlocListen] | None => [] end) ++
                  (if shadowRoot c then [Render (render_data c)] else []).
Proof.
  destruct c as [p cb sub con sh l].
  unfold mount, connectedCallback, requestUpdate, with_log, with_subscription, with_connected.
  destruct cb, sh; cbn [props cbloc subscription isConnected shadowRoot log];
    rewrite ?app_nil_r, <- ?app_assoc; repeat split; apply f_equal; reflexivity.
Qed.

Lemma unmount_fields c :
  props (unmount c) = props c /\ cbloc (unmount c) = cbloc c /\ shadowRoot (unmount c) = shadowRoot c.
Proof.
  destruct c as [p cb sub con sh l].
  unfold unmount, disconnectedCallback, with_log, with_connected.
  destruct sub, cb; repeat split.
Qed.

Lemma log_unmount c :
  log (unmount c) =
    log c ++ (match subscription c with Some s => [Unsubscribe s] | None => [] end)
          ++ (match cbloc c with Some _ => [BlocClose] | None => [] end).
Proof.
  destruct c as [p cb sub con sh l].
  unfold unmount, disconnectedCallback, with_log, with_connected.
  destruct sub, cb; cbn [log subscription cbloc]; rewrite ?app_nil_r, <- ?app_assoc; reflexivity.
Qed.

Lemma subscription_mount c b :
  cbloc c = Some b -> subscription (mount c) = Some (length (log c)).
Proof.
  destruct c as [p cb sub con sh l]; cbn [cbloc]; intro Hb; subst cb.
  unfold mount, connectedCallback, requestUpdate, with_log, with_subscription, with_connected.
  destruct sh; reflexivity.
Qed.

(** Re-attaching a Bloc-bound component after it was detached subscribes
    again to the Bloc that the detachment closed. *)
Theorem remount_listens_closed_bloc (c : component) (b : bloc) :
  cbloc c = Some b ->
  log (mount (unmount (mount c))) =
    log (mount c) ++ [Unsubscribe (length (log c)); BlocClose; BlocListen] ++
    (if shadowRoot c then [Render (render_data c)] else []).
Proof.
  intro Hb.
  destruct (mount_fields c) as [Mp [Mb [Ms _]]].
  destruct (unmount_fields (mount c)) as [Up [Ub Us]].
  destruct (mount_fields (unmount (mount c))) as [_ [_ [_ Ml]]].
  rewrite Ml, log_unmount, (subscription_mount c b Hb), Ub, Us, Mb, Ms, Hb.
  rewrite (render_data_eq (unmount (mount c)) c); [|congruence|congruence].
  rewrite <- !app_assoc. reflexivity.
Qed.

Lemma remount_listens_closed_bloc_witness :
  cbloc (constructor (Some (mkBloc (JStr "initial")))) = Some (mkBloc (JStr "initial")) /\
  log (mount (unmount (mount (constructor (Some (mkBloc (JStr "initial"))))))) =
    [BlocListen; Render [("state", JStr "initial")]; Unsubscribe 0; BlocClose; BlocListen;
     Render [("state", JStr "initial")]].
Proof.
  split; [reflexivity|].
  rewrite (remount_listens_closed_bloc (constructor (Some (mkBloc (JStr "initial"))))
             (mkBloc (JStr "initial")) eq_refl).
  reflexivity.
Defined.

(** * Further properties of navigation *)

Lemma get_own_obj_delete {A} (o : obj A) k k' :
  get_own (obj_delete o k) k' = if String.eqb k k' then None else get_own o k'.
Proof.
  induction o as [|[k0 v0] o IH]; simpl.
  - now destruct (String.eqb k k').
  - destruct (String.eqb k0 k) eqn:E; simpl.
    + apply String.eqb_eq in E; subst k0. rewrite IH.
      now destruct (String.eqb k k').
    + rewrite IH. destruct (String.eqb k0 k') eqn:E'; [|reflexivity].
      apply String.eqb_eq in E'; subst k'. now rewrite String.eqb_sym, E.
Qed.

Lemma get_own_navigate (window : store) (path : string) (params : bag) (k : string) :
  get_own (fst (navigate window path params)) k =
    (if Nat.ltb 0 (length (keys params)) && String.eqb path k then Some params
     else get_own window k) /\
  snd (navigate window path params) = path.
Proof.
  unfold navigate; simpl. split; [|reflexivity].
  destruct (Nat.ltb 0 (length (keys params))); simpl; [|reflexivity].
  rewrite get_own_obj_set. reflexivity.
Qed.

(** [navigate(path, { params })] with non-empty [params], followed by route
    entry at a location whose path and query string form [path]: each URL
    key is assigned the stashed object's value for it (own, or inherited
    from Object.prototype) when that is neither null nor undefined, its URL
    value otherwise; the entry for [path] is consumed and the other entries
    are kept. *)
Theorem navigate_then_route_entry (window : store) (path : string) (stash : bag)
    (loc : location) (k : string) :
  (pathname loc ++ search loc)%string = path ->
  0 < length (keys stash) ->
  NoDup (keys (params loc)) ->
  let r := onBeforeEnter (fst (navigate window path stash)) loc in
  get_own (snd r) k =
    option_map (nullish (get_member stash k))
      (match get_own (rev (searchParams loc)) k with
       | Some s => Some (JStr s)
       | None => get_own (params loc) k
       end) /\
  get_own (fst r) k = if String.eqb path k then None else get_own window k.
Proof.
  intros Hp Hl Hd r. unfold r. split.
  - rewrite get_own_onBeforeEnter by exact Hd.
    assert (Hs : stashed (fst (navigate window path stash)) loc k = get_member stash k).
    { unfold stashed. rewrite Hp. destruct (get_own_navigate window path stash path) as [E _].
      rewrite E, String.eqb_refl, andb_true_r.
      apply Nat.ltb_lt in Hl. now rewrite Hl. }
    rewrite Hs. destruct (get_own (rev (searchParams loc)) k); reflexivity.
  - rewrite store_onBeforeEnter, get_own_obj_delete, Hp.
    destruct (String.eqb path k) eqn:E; [reflexivity|].
    destruct (get_own_navigate window path stash k) as [E' _]. rewrite E', E, andb_false_r.
    reflexivity.
Qed.

Lemma navigate_then_route_entry_witness :
  let loc := mkLocation "/users/42" "?status=active" [("user", JStr "42")] [("status", "active")] in
  (pathname loc ++ search loc)%string = "/users/42?status=active" /\
  0 < length (keys [("user", JRef 1)]) /\
  NoDup (keys (params loc)) /\
  get_own (snd (onBeforeEnter (fst (navigate [] "/users/42?status=active" [("user", JRef 1)])) loc))
    "user" = Some (JRef 1).
Proof.
  intro loc.
  assert (H1 : (pathname loc ++ search loc)%string = "/users/42?status=active") by reflexivity.
  assert (H2 : 0 < length (keys [("user", JRef 1)])) by (simpl; lia).
  assert (H3 : NoDup (keys (params loc))) by (repeat constructor; simpl; tauto).
  split; [exact H1|split; [exact H2|split; [exact H3|]]].
  destruct (navigate_then_route_entry [] _ [("user", JRef 1)] loc "user" H1 H2 H3) as [E _].
  rewrite E. reflexivity.
Defined.

(** * Properties of the example applications *)

(** ** The counter Bloc *)

(** [CounterBloc] never takes the counter below zero: from a non-negative
    value each event yields at most one state, itself non-negative, and a
    decrement at zero yields nothing. *)
Theorem counter_never_negative (state : counter_state) (event : counter_event) :
  (0 <= counter_value state)%Z ->
  Forall (fun s => 0 <= counter_value s)%Z (counter_mapEventToState state event) /\
  length (counter_mapEventToState state event) <= 1 /\
  (counter_value state = 0%Z -> counter_mapEventToState state CounterDecrement = []).
Proof.
  intro H. split; [|split].
  - destruct event; simpl; [constructor| |].
    + constructor; [simpl; lia|constructor].
    + destruct (Z.ltb 0 (counter_value state)) eqn:E; [|constructor].
      apply Z.ltb_lt in E. constructor; [simpl; lia|constructor].
  - destruct event; simpl; [lia|lia|]. destruct (Z.ltb 0 (counter_value state)); simpl; lia.
  - intro E. simpl. now rewrite E.
Qed.

Lemma counter_never_negative_witness :
  (0 <= counter_value CounterInitialized)%Z /\
  counter_mapEventToState CounterInitialized CounterDecrement = [].
Proof.
  assert (H : (0 <= counter_value CounterInitialized)%Z) by (simpl; lia).
  split; [exact H|]. now apply (counter_never_negative CounterInitialized CounterIncrement H).
Defined.

(** ** The in-memory to-do service *)

Lemma same_value_zero_eq a b : same_value_zero a b = true <-> a = b.
Proof.
  split.
  - intro H.
    assert (Hs : (a = JNum NaN /\ b = JNum NaN) \/ strict_eq a b = true).
    { revert H. destruct a as [| | |[| |]| | |], b as [| | |[| |]| | |]; unfold same_value_zero;
        auto. }
    destruct Hs as [[-> ->]|Hs]; [reflexivity|now apply strict_eq_true].
  - intros <-. destruct a as [| |x|[|z|p]|x|x|x]; simpl; auto.
    + apply eqb_reflx.
    + apply Z.eqb_refl.
    + destruct p; reflexivity.
    + apply String.eqb_refl.
    + apply N.eqb_refl.
    + apply String.eqb_refl.
Qed.

Lemma same_value_zero_refl a : same_value_zero a a = true.
Proof. now apply same_value_zero_eq. Qed.

Lemma same_value_zero_sym a b : same_value_zero a b = same_value_zero b a.
Proof.
  apply Bool.eq_true_iff_eq. rewrite !same_value_zero_eq. split; congruence.
Qed.

Lemma map_get_set m k v k' :
  map_get (map_set m k v) k' = if same_value_zero k k' then Some v else map_get m k'.
Proof.
  induction m as [|[k0 v0] m IH]; simpl.
  - destruct (same_value_zero k k'); reflexivity.
  - destruct (same_value_zero k0 k) eqn:E; simpl.
    + apply same_value_zero_eq in E; subst k0.
      destruct (same_value_zero k k'); reflexivity.
    + rewrite IH. destruct (same_value_zero k0 k') eqn:E'; [|reflexivity].
      apply same_value_zero_eq in E'; subst k'.
      now rewrite same_value_zero_sym, E.
Qed.

Lemma map_has_get m k : map_has m k = match map_get m k with Some _ => true | None => false end.
Proof.
  induction m as [|[k0 v0] m IH]; simpl; [reflexivity|].
  destruct (same_value_zero k0 k); auto.
Qed.

Lemma map_get_delete m k k' :
  map_get (map_delete m k) k' = if same_value_zero k k' then None else map_get m k'.
Proof.
  induction m as [|[k0 v0] m IH]; simpl.
  - now destruct (same_value_zero k k').
  - destruct (same_value_zero k0 k) eqn:E; simpl.
    + apply same_value_zero_eq in E; subst k0. rewrite IH.
      now destruct (same_value_zero k k').
    + rewrite IH. destruct (same_value_zero k0 k') eqn:E'; [|reflexivity].
      apply same_value_zero_eq in E'; subst k'. now rewrite same_value_zero_sym, E.
Qed.

Lemma map_set_new m k v : map_has m k = false -> map_set m k v = m ++ [(k, v)].
Proof.
  induction m as [|[k0 v0] m IH]; simpl; [reflexivity|].
  intro H. apply orb_false_iff in H as [H1 H2]. rewrite H1, IH; auto.
Qed.

Lemma map_set_keys m k v :
  map_has m k = true -> map fst (map_set m k v) = map fst m.
Proof.
  induction m as [|[k0 v0] m IH]; simpl; [discriminate|].
  destruct (same_value_zero k0 k) eqn:E; simpl.
  - apply same_value_zero_eq in E; subst; reflexivity.
  - intro H. now rewrite IH.
Qed.

(** Every key of the service's map is an id below [#nextId]. *)
Definition ids_below (s : mock_service) : Prop :=
  Forall (fun kv => exists z, fst kv = JNum (Fin z) /\ (z < nextId s)%Z) (todos s).

Lemma map_has_ids_below s : ids_below s -> map_has (todos s) (JNum (Fin (nextId s))) = false.
Proof.
  unfold ids_below. induction (todos s) as [|[k0 v0] m IH]; intro H; simpl; [reflexivity|].
  inversion H as [|? ? [z [Ek Hz]] Hm]; subst. simpl in Ek; subst k0.
  rewrite IH by exact Hm. simpl. rewrite orb_false_r. apply Z.eqb_neq. lia.
Qed.

Lemma ids_below_step s o : ids_below s -> ids_below (service_step s o).
Proof.
  unfold ids_below. intro H. destruct o as [t|t|t]; simpl.
  - rewrite map_set_new by now apply map_has_ids_below.
    apply Forall_app. split.
    + eapply Forall_impl; [|exact H]. intros kv [z [E Hz]]. exists z. split; [exact E|lia].
    + constructor; [|constructor]. exists (nextId s). simpl. split; [reflexivity|lia].
  - unfold updateTodo. destruct (map_has (todos s) (get_prop t "id")) eqn:Eh; simpl; [|exact H].
    apply Forall_forall. intros kv Hin.
    assert (Hk : In (fst kv) (map fst (todos s))).
    { rewrite <- (map_set_keys _ _ t Eh). now apply in_map. }
    apply in_map_iff in Hk as [kv' [Ek Hin']].
    rewrite Forall_forall in H. destruct (H kv' Hin') as [z [E Hz]].
    exists z. split; [congruence|exact Hz].
  - apply Forall_forall. intros kv Hin. unfold map_delete in Hin.
    apply filter_In in Hin as [Hin _]. rewrite Forall_forall in H. now apply H.
Qed.

Lemma ids_below_run ops : ids_below (run_service mock_init ops).
Proof.
  unfold run_service.
  assert (G : forall s, ids_below s -> ids_below (fold_left service_step ops s)).
  { induction ops as [|o ops IH]; intros s H; simpl; [exact H|]. apply IH, ids_below_step, H. }
  apply G. constructor.
Qed.

Lemma addTodo_id (s : mock_service) (todo : bag) :
  NoDup (keys todo) ->
  get_own (snd (addTodo s todo)) "id" =
    Some (match get_own todo "id" with Some v => v | None => JNum (Fin (nextId s)) end).
Proof.
  intro Hd. unfold addTodo; simpl. unfold spread.
  change (assign_into [] [("id", JNum (Fin (nextId s)))]) with [("id", JNum (Fin (nextId s)))].
  rewrite get_own_assign, (get_own_rev _ _ Hd). simpl.
  destruct (get_own todo "id"); reflexivity.
Qed.

Lemma addTodo_fresh_id (s : mock_service) (todo : bag) :
  has_own todo "id" = false -> get_prop (snd (addTodo s todo)) "id" = JNum (Fin (nextId s)).
Proof.
  intro H. unfold addTodo, get_prop; simpl. unfold spread. rewrite get_own_assign.
  assert (Hr : get_own (rev todo) "id" = None).
  { destruct (get_own (rev todo) "id") eqn:E; [|reflexivity].
    assert (Hh : has_own (rev todo) "id" = true) by (now rewrite has_own_get_own, E).
    rewrite has_own_rev in Hh. congruence. }
  now rewrite Hr.
Qed.

(** On any service reached from the initial one, [addTodo] never
    overwrites: the fresh id is not yet a key, and the new to-do is appended
    at the end of what [searchTodos()] returns. *)
Theorem addTodo_appends (ops : list service_op) (todo : bag) :
  let s := run_service mock_init ops in
  map_has (todos s) (JNum (Fin (nextId s))) = false /\
  searchTodos (fst (addTodo s todo)) = searchTodos s ++ [snd (addTodo s todo)].
Proof.
  intro s. pose proof (map_has_ids_below s (ids_below_run ops)) as H.
  split; [exact H|]. unfold addTodo, searchTodos; simpl.
  rewrite map_set_new by exact H. now rewrite map_app.
Qed.

(** A to-do added without an own [id] can be updated through the object
    [addTodo] returned, after changing its contents. *)
Theorem addTodo_then_update (s : mock_service) (todo : bag) (contents : jsval) :
  has_own todo "id" = false ->
  let '(s1, newTodo) := addTodo s todo in
  snd (updateTodo s1 (obj_set newTodo "contents" contents)) = Some (obj_set newTodo "contents" contents).
Proof.
  intro H. unfold addTodo. cbn [fst snd].
  assert (Hid : get_prop (obj_set (spread [("id", JNum (Fin (nextId s)))] todo) "contents" contents) "id"
                = JNum (Fin (nextId s))).
  { pose proof (addTodo_fresh_id s todo H) as E. unfold addTodo, get_prop in *. cbn [snd] in E.
    rewrite get_own_obj_set. exact E. }
  unfold updateTodo. cbn [todos nextId]. rewrite Hid, map_has_get, map_get_set, same_value_zero_refl.
  reflexivity.
Qed.

Lemma addTodo_then_update_witness :
  has_own [("contents", JStr "milk")] "id" = false /\
  snd (updateTodo (fst (addTodo mock_init [("contents", JStr "milk")]))
         (obj_set (snd (addTodo mock_init [("contents", JStr "milk")])) "contents" (JStr "eggs")))
  = Some [("id", JNum (Fin 1)); ("contents", JStr "eggs")].
Proof.
  split; [reflexivity|].
  exact (addTodo_then_update mock_init [("contents", JStr "milk")] (JStr "eggs") eq_refl).
Defined.

(** A to-do added with an own [id] that is neither stored nor the fresh id
    is stored under the fresh id but keeps its own [id], so updating it
    through the returned object answers [null]. *)
Theorem addTodo_own_id_not_updatable (s : mock_service) (todo : bag) (v : jsval) :
  NoDup (keys todo) -> get_own todo "id" = Some v ->
  map_has (todos s) v = false -> same_value_zero (JNum (Fin (nextId s))) v = false ->
  let '(s1, newTodo) := addTodo s todo in
  updateTodo s1 newTodo = (s1, None).
Proof.
  intros Hd Hv Hm Hf.
  pose proof (addTodo_id s todo Hd) as Eid.
  rewrite Hv in Eid. unfold addTodo in *. cbn [fst snd] in *.
  unfold updateTodo. cbn [todos nextId]. unfold get_prop at 1. rewrite Eid.
  rewrite map_has_get, map_get_set, Hf, <- map_has_get, Hm. reflexivity.
Qed.

Lemma addTodo_own_id_not_updatable_witness :
  let todo := [("id", JNum (Fin 5)); ("contents", JStr "milk")] in
  NoDup (keys todo) /\ get_own todo "id" = Some (JNum (Fin 5)) /\
  map_has (todos mock_init) (JNum (Fin 5)) = false /\
  same_value_zero (JNum (Fin (nextId mock_init))) (JNum (Fin 5)) = false /\
  updateTodo (fst (addTodo mock_init todo)) (snd (addTodo mock_init todo))
  = (fst (addTodo mock_init todo), None).
Proof.
  intro todo.
  assert (H1 : NoDup (keys todo)) by (repeat constructor; simpl; intuition discriminate).
  assert (H2 : get_own todo "id" = Some (JNum (Fin 5))) by reflexivity.
  assert (H3 : map_has (todos mock_init) (JNum (Fin 5)) = false) by reflexivity.
  assert (H4 : same_value_zero (JNum (Fin (nextId mock_init))) (JNum (Fin 5)) = false) by reflexivity.
  split; [exact H1|split; [exact H2|split; [exact H3|split; [exact H4|]]]].
  exact (addTodo_own_id_not_updatable mock_init todo _ H1 H2 H3 H4).
Defined.

(** ** The to-do Blocs over the in-memory service *)

(** The flow of [TodoScreen._save]: saving new contents dispatches
    [AddTodo({ contents })]; [TodoBloc] yields [TodoSaving], then
    [TodoSaved] with the stored to-do, which carries the fresh id.  Saving
    again dispatches [UpdateTodo({ ...savedTodo, contents })], which finds
    that id, replaces the stored entry and yields [TodoSaved]. *)
Theorem todo_bloc_add_then_update (s : mock_service) (c c' : jsval) :
  let t := [("contents", c)] in
  let n := [("id", JNum (Fin (nextId s))); ("contents", c)] in
  let u := spread n [("contents", c')] in
  todo_mapEventToState s (AddTodo t) = ([TodoSaving t; TodoSaved n], fst (addTodo s t)) /\
  u = [("id", JNum (Fin (nextId s))); ("contents", c')] /\
  fst (todo_mapEventToState (fst (addTodo s t)) (UpdateTodo u)) = [TodoSaving u; TodoSaved u] /\
  map_get (todos (snd (todo_mapEventToState (fst (addTodo s t)) (UpdateTodo u))))
    (JNum (Fin (nextId s))) = Some u.
Proof.
  intros t n u.
  assert (Hn : snd (addTodo s t) = n) by reflexivity.
  assert (Hu : u = [("id", JNum (Fin (nextId s))); ("contents", c')]) by reflexivity.
  assert (Hid : get_prop u "id" = JNum (Fin (nextId s))) by (rewrite Hu; reflexivity).
  assert (Hh : map_has (todos (fst (addTodo s t))) (JNum (Fin (nextId s))) = true).
  { unfold addTodo; cbn [fst todos].
    rewrite map_has_get, map_get_set, same_value_zero_refl. reflexivity. }
  split; [|split; [exact Hu|]].
  - unfold todo_mapEventToState. rewrite (surjective_pairing (addTodo s t)), Hn. reflexivity.
  - unfold todo_mapEventToState, updateTodo. rewrite Hid, Hh. cbn [negb fst snd todos].
    split; [reflexivity|]. rewrite map_get_set, same_value_zero_refl. reflexivity.
Qed.

(** Stored to-dos whose own [id] is the key they are stored under. *)
Definition ids_match (s : mock_service) : Prop :=
  Forall (fun kv => get_prop (snd kv) "id" = fst kv) (todos s).

(** Adds of objects without an own [id], as [TodoScreen._save] issues. *)
Definition add_without_id (o : service_op) : bool :=
  match o with SAdd t => negb (has_own t "id") | _ => true end.

Lemma Forall_map_set_ids m k v :
  Forall (fun kv => get_prop (snd kv) "id" = fst kv) m -> get_prop v "id" = k ->
  Forall (fun kv => get_prop (snd kv) "id" = fst kv) (map_set m k v).
Proof.
  intros H Hv. induction H as [|[k0 v0] m H0 H IH]; simpl.
  - repeat constructor. exact Hv.
  - destruct (same_value_zero k0 k) eqn:E.
    + apply same_value_zero_eq in E. subst. now constructor.
    + now constructor.
Qed.

Lemma ids_match_step s o :
  ids_match s -> add_without_id o = true -> ids_match (service_step s o).
Proof.
  unfold ids_match. intros H Ho. destruct o as [t|t|t]; simpl.
  - apply Forall_map_set_ids; [exact H|]. apply addTodo_fresh_id.
    simpl in Ho. now destruct (has_own t "id").
  - unfold updateTodo. destruct (map_has (todos s) (get_prop t "id")); simpl; [|exact H].
    now apply Forall_map_set_ids.
  - unfold map_delete. rewrite Forall_forall in *. intros x Hx.
    apply filter_In in Hx. exact (H x (proj1 Hx)).
Qed.

Lemma ids_match_run ops :
  Forall (fun o => add_without_id o = true) ops -> ids_match (run_service mock_init ops).
Proof.
  unfold run_service.
  assert (G : forall s, ids_match s -> Forall (fun o => add_without_id o = true) ops ->
              ids_match (fold_left service_step ops s)).
  { induction ops as [|o ops IH]; intros s Hs Hops; simpl; [exact Hs|].
    inversion Hops; subst. apply IH; [apply ids_match_step|]; assumption. }
  intro H. apply G; [constructor|exact H].
Qed.

Lemma search_delete_ids m k :
  Forall (fun kv => get_prop (snd kv) "id" = fst kv) m ->
  map snd (map_delete m k) =
  filter (fun x => negb (same_value_zero (get_prop x "id") k)) (map snd m).
Proof.
  unfold map_delete. induction 1 as [|[k0 v0] m H0 H IH]; simpl; [reflexivity|].
  simpl in H0. rewrite H0. destruct (same_value_zero k0 k); simpl; congruence.
Qed.

(** [TodoListBloc] on a [RemoveTodo(todo)] yields nothing itself and adds a
    [LoadTodoList]; on a service built by adds without own ids, the list
    that event then yields is the previous list with exactly the to-dos
    whose [id] is [todo.id] left out, in the same order. *)
Theorem todo_list_remove_then_load (ops : list service_op) (todo : bag) :
  Forall (fun o => add_without_id o = true) ops ->
  let s := run_service mock_init ops in
  let '(states, s', added) := todo_list_mapEventToState s (RemoveTodo todo) in
  states = [] /\ added = [LoadTodoList] /\
  fst (fst (todo_list_mapEventToState s' LoadTodoList)) =
    [TodoListLoaded (filter (fun x => negb (same_value_zero (get_prop x "id") (get_prop todo "id")))
                       (searchTodos s))].
Proof.
  intros Hops s. simpl. split; [reflexivity|split; [reflexivity|]].
  unfold searchTodos. cbn [todos].
  rewrite search_delete_ids; [reflexivity|]. exact (ids_match_run ops Hops).
Qed.

Lemma todo_list_remove_then_load_witness :
  let ops := [SAdd [("contents", JStr "a")]; SAdd [("contents", JStr "b")];
              SAdd [("contents", JStr "c")]] in
  Forall (fun o => add_without_id o = true) ops /\
  fst (fst (todo_list_mapEventToState
              (snd (fst (todo_list_mapEventToState (run_service mock_init ops)
                           (RemoveTodo [("id", JNum (Fin 2))]))))
              LoadTodoList)) =
  [TodoListLoaded [[("id", JNum (Fin 1)); ("contents", JStr "a")];
                   [("id", JNum (Fin 3)); ("contents", JStr "c")]]].
Proof.
  intro ops.
  assert (H : Forall (fun o => add_without_id o = true) ops) by (repeat constructor).
  split; [exact H|].
  pose proof (todo_list_remove_then_load ops [("id", JNum (Fin 2))] H) as E.
  cbv zeta in E. destruct (todo_list_mapEventToState _ _) as [[st s'] ad] eqn:Ed in E.
  rewrite Ed. cbn [fst snd]. destruct E as [_ [_ E]]. rewrite E. reflexivity.
Defined.

(** ** Route entry delivers a stash once *)

(** Entering the same location a second time (a reload of the route, a
    back navigation) assigns the URL values only, whatever had been stashed
    for it: the first entry deleted the stash. *)
Theorem route_reentry_url_values (window : store) (loc : location) :
  snd (onBeforeEnter (fst (onBeforeEnter window loc)) loc) =
    spread (params loc) (fromEntries (searchParams loc)).
Proof.
  rewrite store_onBeforeEnter. unfold onBeforeEnter. cbn [snd].
  rewrite get_own_obj_delete, String.eqb_refl.
  generalize (spread (params loc) (fromEntries (searchParams loc))) as l.
  induction l as [|[k v] l IH]; simpl in *; [reflexivity|]. now rewrite IH.
Qed.

(** ** Order and freshness of the service's ids *)

(** Ids [a < b], both numbers. *)
Definition id_lt (a b : jsval) : Prop :=
  exists z1 z2, a = JNum (Fin z1) /\ b = JNum (Fin z2) /\ (z1 < z2)%Z.

Lemma map_has_set m k v k' :
  map_has (map_set m k v) k' = same_value_zero k k' || map_has m k'.
Proof. rewrite !map_has_get, map_get_set. now destruct (same_value_zero k k'). Qed.

Lemma map_has_delete m k k' :
  map_has (map_delete m k) k' = negb (same_value_zero k k') && map_has m k'.
Proof. rewrite !map_has_get, map_get_delete. now destruct (same_value_zero k k'). Qed.

Lemma map_has_below s k :
  ids_below s -> map_has (todos s) k = true -> exists z, k = JNum (Fin z) /\ (z < nextId s)%Z.
Proof.
  unfold ids_below. induction (todos s) as [|[k0 v0] m IH]; intros H Hk; simpl in Hk;
    [discriminate|].
  inversion H as [|? ? [z [Ek Hz]] Hm]; subst. simpl in Ek.
  destruct (same_value_zero k0 k) eqn:E.
  - apply same_value_zero_eq in E. subst. now exists z.
  - now apply IH.
Qed.

Lemma StronglySorted_snoc {A} (R : A -> A -> Prop) l x :
  StronglySorted R l -> Forall (fun y => R y x) l -> StronglySorted R (l ++ [x]).
Proof.
  induction 1 as [|a l Hl IH Ha]; intro Hf; simpl.
  - repeat constructor.
  - inversion Hf as [|? ? Hax Hf']; subst. constructor; [now apply IH|].
    apply Forall_app. split; [exact Ha|]. now constructor.
Qed.

Lemma StronglySorted_filter {A} (R : A -> A -> Prop) (f : A -> bool) l :
  StronglySorted R l -> StronglySorted R (filter f l).
Proof.
  induction 1 as [|a l Hl IH Ha]; simpl; [constructor|].
  destruct (f a); [|exact IH]. constructor; [exact IH|].
  rewrite Forall_forall in *. intros x Hx. apply filter_In in Hx. now apply Ha.
Qed.

Lemma keys_map_delete m k :
  map fst (map_delete m k) = filter (fun x => negb (same_value_zero x k)) (map fst m).
Proof.
  unfold map_delete. induction m as [|[k0 v0] m IH]; simpl; [reflexivity|].
  destruct (same_value_zero k0 k); simpl; congruence.
Qed.

Lemma ids_sorted_step s o :
  ids_below s -> StronglySorted id_lt (map fst (todos s)) ->
  StronglySorted id_lt (map fst (todos (service_step s o))).
Proof.
  intros Hb H. destruct o as [t|t|t]; simpl.
  - rewrite map_set_new by now apply map_has_ids_below. rewrite map_app. simpl.
    apply StronglySorted_snoc; [exact H|]. apply Forall_map.
    eapply Forall_impl; [|exact Hb]. intros kv [z [E Hz]]. now exists z, (nextId s).
  - unfold updateTodo. destruct (map_has (todos s) (get_prop t "id")) eqn:Eh; simpl; [|exact H].
    now rewrite map_set_keys.
  - rewrite keys_map_delete. now apply StronglySorted_filter.
Qed.

Lemma ids_sorted_run ops : StronglySorted id_lt (map fst (todos (run_service mock_init ops))).
Proof.
  unfold run_service.
  assert (G : forall s, ids_below s -> StronglySorted id_lt (map fst (todos s)) ->
              StronglySorted id_lt (map fst (todos (fold_left service_step ops s)))).
  { induction ops as [|o ops IH]; intros s Hb H; simpl; [exact H|].
    apply IH; [now apply ids_below_step|now apply ids_sorted_step]. }
  apply G; [constructor|constructor].
Qed.

(** On a service built by adds without own ids, [searchTodos()] lists the
    to-dos by strictly increasing id: in the order they were created,
    whatever was updated or removed in between. *)
Theorem searchTodos_increasing_ids (ops : list service_op) :
  Forall (fun o => add_without_id o = true) ops ->
  StronglySorted id_lt
    (map (fun t => get_prop t "id") (searchTodos (run_service mock_init ops))).
Proof.
  intro Hops. pose proof (ids_match_run ops Hops) as Hm. unfold ids_match in Hm.
  unfold searchTodos. rewrite map_map.
  replace (map (fun x => get_prop (snd x) "id") (todos (run_service mock_init ops)))
    with (map fst (todos (run_service mock_init ops))); [apply ids_sorted_run|].
  induction Hm as [|kv m Hkv Hm IH]; simpl; [reflexivity|]. now rewrite Hkv, IH.
Qed.

Lemma searchTodos_increasing_ids_witness :
  let ops := [SAdd [("contents", JStr "a")]; SAdd [("contents", JStr "b")];
              SRemove [("id", JNum (Fin 1))]; SAdd [("contents", JStr "c")];
              SUpdate [("id", JNum (Fin 2)); ("contents", JStr "B")]] in
  Forall (fun o => add_without_id o = true) ops /\
  StronglySorted id_lt (map (fun t => get_prop t "id") (searchTodos (run_service mock_init ops))).
Proof.
  intro ops. assert (H : Forall (fun o => add_without_id o = true) ops) by (repeat constructor).
  split; [exact H|]. exact (searchTodos_increasing_ids ops H).
Defined.

(** An id that disappears from the map, a missing key staying below the id
    counter. *)
Definition gone (z : Z) (s : mock_service) : Prop :=
  map_has (todos s) (JNum (Fin z)) = false /\ (z < nextId s)%Z.

Lemma gone_step z s o : gone z s -> gone z (service_step s o).
Proof.
  intros [Hh Hz]. destruct o as [t|t|t]; simpl.
  - unfold gone; simpl. rewrite map_has_set, Hh, orb_false_r. split; [|lia].
    simpl. apply Z.eqb_neq. lia.
  - unfold updateTodo. destruct (map_has (todos s) (get_prop t "id")) eqn:Eh; simpl;
      [|split; assumption].
    unfold gone; simpl. rewrite map_has_set, Hh, orb_false_r. split; [|exact Hz].
    destruct (same_value_zero (get_prop t "id") (JNum (Fin z))) eqn:E; [|reflexivity].
    apply same_value_zero_eq in E. rewrite E in Eh. congruence.
  - unfold gone; simpl. rewrite map_has_delete, Hh, andb_false_r. split; [reflexivity|exact Hz].
Qed.

Lemma gone_run z s ops : gone z s -> gone z (run_service s ops).
Proof.
  unfold run_service. revert s; induction ops as [|o ops IH]; intros s H; simpl; [exact H|].
  apply IH, gone_step, H.
Qed.

(** Ids are never reused: once a stored to-do is removed, no later sequence
    of adds, updates and removals stores anything under its id again, so
    updating it answers [null] and changes nothing. *)
Theorem removed_id_never_reused (ops1 ops2 : list service_op) (todo : bag) :
  map_has (todos (run_service mock_init ops1)) (get_prop todo "id") = true ->
  let s' := run_service (fst (removeTodo (run_service mock_init ops1) todo)) ops2 in
  map_has (todos s') (get_prop todo "id") = false /\ updateTodo s' todo = (s', None).
Proof.
  intros H s'.
  destruct (map_has_below _ _ (ids_below_run ops1) H) as [z [Ez Hz]].
  assert (Hg : gone z s').
  { apply gone_run. unfold gone, removeTodo; simpl.
    rewrite map_has_delete, Ez, same_value_zero_refl. split; [reflexivity|exact Hz]. }
  destruct Hg as [Hg _]. rewrite Ez. split; [exact Hg|].
  unfold updateTodo. rewrite Ez, Hg. reflexivity.
Qed.

Lemma removed_id_never_reused_witness :
  let ops1 := [SAdd [("contents", JStr "a")]; SAdd [("contents", JStr "b")]] in
  let todo := [("id", JNum (Fin 1)); ("contents", JStr "a")] in
  let ops2 := [SAdd [("contents", JStr "c")]; SUpdate [("id", JNum (Fin 1)); ("contents", JStr "x")]] in
  map_has (todos (run_service mock_init ops1)) (get_prop todo "id") = true /\
  snd (updateTodo (run_service (fst (removeTodo (run_service mock_init ops1) todo)) ops2) todo)
  = None.
Proof.
  intros ops1 todo ops2.
  assert (H : map_has (todos (run_service mock_init ops1)) (get_prop todo "id") = true)
    by reflexivity.
  split; [exact H|].
  destruct (removed_id_never_reused ops1 ops2 todo H) as [_ E]. rewrite E. reflexivity.
Defined.
